(** * Four ways to order one write before one read (main.go)

    The program under study spawns one goroutine per pattern and
    synchronises it with its caller through a [sync.WaitGroup], an
    unbuffered channel, a returned channel, or a [sync.Mutex].

    Each function is embedded as a two-goroutine transition system at
    statement granularity: a state holds the shared variables, the
    synchronisation object and one program point per goroutine; a step
    function runs the next statement of the chosen goroutine.  A schedule
    is a list of goroutine choices, and a property that holds "for every
    invocation" is proved for every schedule.  The Go memory model makes a
    data-race-free program sequentially consistent, and the accesses to
    the shared variables below are ordered by the primitives, so
    interleaving whole statements loses no behaviour. *)

From Stdlib Require Import ZArith List Bool Lia.
From Stdlib Require String.
Import ListNotations.
Import String.StringSyntax.
Delimit Scope string_scope with string.
Local Open Scope Z_scope.

(** Go's [int].  The program only stores and copies such values; it never
    computes with them, so no wrap-around can arise. *)
Definition int := Z.

(** ** What running one statement can do *)

Inductive outcome (S : Type) : Type :=
| Next (s : S)   (* the statement ran *)
| Blocked        (* the goroutine is parked on a synchronisation primitive *)
| Ended          (* no such goroutine is running: not spawned yet, or finished *)
| Panic.         (* run-time panic or fatal error: the program aborts *)

Arguments Next {S} s.
Arguments Blocked {S}.
Arguments Ended {S}.
Arguments Panic {S}.

Definition bind {A B : Type} (o : outcome A) (k : A -> outcome B) : outcome B :=
  match o with
  | Next a => k a
  | Blocked => Blocked
  | Ended => Ended
  | Panic => Panic
  end.

Notation "x <- e ;; k" := (bind e (fun x => k))
  (at level 61, e at next level, right associativity).

(** ** The primitives of package sync and of the runtime *)

Module Mutex.
Record t := mk { locked : bool }.

(** The zero value of [sync.Mutex] is an unlocked mutex. *)
Definition zero : t := mk false.

(** [Lock] parks the caller while the mutex is held. *)
Definition Lock (m : t) : outcome t :=
  if locked m then Blocked else Next (mk true).

(** [Unlock] of an unlocked mutex is a fatal error. *)
Definition Unlock (m : t) : outcome t :=
  if locked m then Next (mk false) else Panic.
End Mutex.

Module WaitGroup.
Record t := mk { counter : Z }.

(** The zero value of [sync.WaitGroup] has counter 0. *)
Definition zero : t := mk 0.

(** [Add] panics when the counter would go negative. *)
Definition Add (delta : Z) (wg : t) : outcome t :=
  let n := counter wg + delta in
  if n <? 0 then Panic else Next (mk n).

(** [Done] decrements the counter by one. *)
Definition Done (wg : t) : outcome t := Add (-1) wg.

(** [Wait] blocks until the counter is zero. *)
Definition Wait (wg : t) : outcome unit :=
  if counter wg =? 0 then Next tt else Blocked.
End WaitGroup.

Module Chan.
(** An unbuffered channel with at most one sending goroutine, which is all
    the program uses: [sendq] holds the value of a sender that is parked
    in its send statement, waiting for a receiver. *)
Record t (A : Type) := mk { sendq : option A; closed : bool }.
Arguments mk {A} sendq closed.
Arguments sendq {A} _.
Arguments closed {A} _.

(** [make(chan A)] *)
Definition make {A : Type} : t A := mk None false.

(** First half of [c <- v]: the sender offers [v] and parks.  Sending on
    a closed channel panics. *)
Definition send_park {A : Type} (v : A) (c : t A) : outcome (t A) :=
  if closed c then Panic
  else match sendq c with
       | None => Next (mk (Some v) (closed c))
       | Some _ => Blocked
       end.

(** Second half of [c <- v]: the send statement completes once a receiver
    has taken the offered value. *)
Definition send_resume {A : Type} (c : t A) : outcome unit :=
  match sendq c with
  | None => Next tt
  | Some _ => Blocked
  end.

(** [v, ok := <-c]: takes the value of the parked sender; with no sender
    it yields the zero value and [ok = false] on a closed channel, and
    blocks on an open one. *)
Definition recv {A : Type} (zero : A) (c : t A) : outcome (A * bool * t A) :=
  match sendq c with
  | Some v => Next (v, true, mk None (closed c))
  | None => if closed c then Next (zero, false, c) else Blocked
  end.
End Chan.

(** ** Two goroutines under an arbitrary scheduler *)

(** [Caller] is the goroutine that calls the function, [Task] the one the
    function spawns with [go]. *)
Inductive tid := Caller | Task.

Definition tid_eq_dec (a b : tid) : {a = b} + {a <> b}.
Proof. decide equality. Defined.

Section Interleaving.
Variable State : Type.
Variable step : tid -> State -> outcome State.
Variable init : State.

(** Runs a schedule.  Choosing a goroutine that cannot run leaves the
    state as it is; a panic aborts the program ([None]). *)
Fixpoint exec (sched : list tid) (s : State) : option State :=
  match sched with
  | [] => Some s
  | t :: rest =>
      match step t s with
      | Next s' => exec rest s'
      | Blocked | Ended => exec rest s
      | Panic => None
      end
  end.

Inductive reachable : State -> Prop :=
| reach_init : reachable init
| reach_step t s s' : reachable s -> step t s = Next s' -> reachable s'.

(** Some schedule makes the call produce [r]; [result] reads the produced
    value off a state. *)
Definition may_return {R : Type} (result : State -> option R) (r : R) : Prop :=
  exists sched s, exec sched init = Some s /\ result s = Some r.
End Interleaving.

Arguments exec {State} step sched s.
Arguments reachable {State} step init _.
Arguments may_return {State} step init {R} result r.

(** [n] rounds in which each goroutine is chosen once: a fair continuation
    of any schedule. *)
Fixpoint round_robin (n : nat) : list tid :=
  match n with
  | O => []
  | S k => Caller :: Task :: round_robin k
  end.

(** ** blockingWithWaitgroups *)

Module BlockingWithWaitgroups.
(** The statement the caller is about to run. *)
Inductive caller_pc :=
| AtAdd                (* wg.Add(1) *)
| AtGo                 (* go func() { ... }() *)
| AtWait               (* wg.Wait() *)
| AtReturn             (* return i *)
| Returned (r : int).  (* the call returned r *)

Inductive task_pc :=
| NotSpawned
| AtAssign             (* i = 5 *)
| AtDone               (* wg.Done() *)
| Exited.

(** [done_calls] counts the calls of [wg.Done] made so far; no statement
    reads it. *)
Record state := mkState {
  i : int;
  wg : WaitGroup.t;
  caller : caller_pc;
  task : task_pc;
  done_calls : nat
}.

(** After [var i int] and [var wg sync.WaitGroup]. *)
Definition init : state := mkState 0 WaitGroup.zero AtAdd NotSpawned 0.

Definition step (t : tid) (s : state) : outcome state :=
  match t with
  | Caller =>
      match caller s with
      | AtAdd =>
          wg' <- WaitGroup.Add 1 (wg s) ;;
          Next (mkState (i s) wg' AtGo (task s) (done_calls s))
      | AtGo => Next (mkState (i s) (wg s) AtWait AtAssign (done_calls s))
      | AtWait =>
          _ <- WaitGroup.Wait (wg s) ;;
          Next (mkState (i s) (wg s) AtReturn (task s) (done_calls s))
      | AtReturn =>
          Next (mkState (i s) (wg s) (Returned (i s)) (task s) (done_calls s))
      | Returned _ => Ended
      end
  | Task =>
      match task s with
      | NotSpawned => Ended
      | AtAssign => Next (mkState 5 (wg s) (caller s) AtDone (done_calls s))
      | AtDone =>
          wg' <- WaitGroup.Done (wg s) ;;
          Next (mkState (i s) wg' (caller s) Exited (S (done_calls s)))
      | Exited => Ended
      end
  end.

Definition result (s : state) : option int :=
  match caller s with Returned r => Some r | _ => None end.

(** The caller has got past [wg.Wait()]. *)
Definition past_wait (s : state) : bool :=
  match caller s with AtReturn | Returned _ => true | _ => false end.
End BlockingWithWaitgroups.

(** ** blockingWithChannel *)

Module BlockingWithChannel.
Inductive caller_pc :=
| AtGo                 (* go func() { ... }() *)
| AtRecv               (* <-done *)
| AtReturn             (* return i *)
| Returned (r : int).

Inductive task_pc :=
| NotSpawned
| AtAssign             (* i = 5 *)
| AtSend               (* done <- struct{}{}, about to offer the token *)
| Parked               (* done <- struct{}{}, waiting for the receiver *)
| Exited.

Record state := mkState {
  i : int;
  done : Chan.t unit;
  caller : caller_pc;
  task : task_pc
}.

(** After [var i int] and [done := make(chan struct{})]. *)
Definition init : state := mkState 0 Chan.make AtGo NotSpawned.

Definition step (t : tid) (s : state) : outcome state :=
  match t with
  | Caller =>
      match caller s with
      | AtGo => Next (mkState (i s) (done s) AtRecv AtAssign)
      | AtRecv =>
          r <- Chan.recv tt (done s) ;;
          Next (mkState (i s) (snd r) AtReturn (task s))
      | AtReturn => Next (mkState (i s) (done s) (Returned (i s)) (task s))
      | Returned _ => Ended
      end
  | Task =>
      match task s with
      | NotSpawned => Ended
      | AtAssign => Next (mkState 5 (done s) (caller s) AtSend)
      | AtSend =>
          c' <- Chan.send_park tt (done s) ;;
          Next (mkState (i s) c' (caller s) Parked)
      | Parked =>
          _ <- Chan.send_resume (done s) ;;
          Next (mkState (i s) (done s) (caller s) Exited)
      | Exited => Ended
      end
  end.

Definition result (s : state) : option int :=
  match caller s with Returned r => Some r | _ => None end.
End BlockingWithChannel.

(** ** returningWithChannel *)

Module ReturningWithChannel.
(** The function has two statements after [c := make(chan int)].  Once it
    has returned, the caller holds the handle [c], whose type [<-chan int]
    allows receiving and nothing else: every further step of the caller
    is a receive [<-c], as the one in [main]. *)
Inductive caller_pc :=
| AtGo                 (* go func() { c <- 5 }() *)
| AtReturn             (* return c *)
| Holding.             (* returned; the next statement is a receive <-c *)

Inductive task_pc :=
| NotSpawned
| AtSend               (* c <- 5, about to offer the value *)
| Parked               (* c <- 5, waiting for the receiver *)
| Exited.

(** [got] lists what the receives on the handle returned so far, oldest
    first, each value with its [ok] flag. *)
Record state := mkState {
  c : Chan.t int;
  caller : caller_pc;
  task : task_pc;
  got : list (int * bool)
}.

(** After [c := make(chan int)]. *)
Definition init : state := mkState Chan.make AtGo NotSpawned [].

Definition step (t : tid) (s : state) : outcome state :=
  match t with
  | Caller =>
      match caller s with
      | AtGo => Next (mkState (c s) AtReturn AtSend (got s))
      | AtReturn => Next (mkState (c s) Holding (task s) (got s))
      | Holding =>
          r <- Chan.recv 0 (c s) ;;
          Next (mkState (snd r) Holding (task s) (got s ++ [fst r]))
      end
  | Task =>
      match task s with
      | NotSpawned => Ended
      | AtSend =>
          c' <- Chan.send_park 5 (c s) ;;
          Next (mkState c' (caller s) Parked (got s))
      | Parked =>
          _ <- Chan.send_resume (c s) ;;
          Next (mkState (c s) (caller s) Exited (got s))
      | Exited => Ended
      end
  end.

(** The call has handed the channel back to its caller. *)
Definition returned (s : state) : bool :=
  match caller s with Holding => true | _ => false end.

(** Statements the caller still has to run before the call returns. *)
Definition statements_left (s : state) : nat :=
  match caller s with AtGo => 2 | AtReturn => 1 | Holding => 0 end.

(** The value [main] binds with [i := <-returningWithChannel()]: the first
    one received on the handle. *)
Definition result (s : state) : option int :=
  match got s with
  | (v, _) :: _ => Some v
  | [] => None
  end.

(** Receives that delivered a value sent on the channel ([ok = true]). *)
Definition deliveries (s : state) : nat :=
  length (filter snd (got s)).
End ReturningWithChannel.

(** ** safeNumber and its accessors *)

Record safeNumber := mkSafe { val : int; m : Mutex.t }.

(** [&safeNumber{}] *)
Definition new_safeNumber : safeNumber := mkSafe 0 Mutex.zero.

(** [get] run without interruption: lock, evaluate the operand of [return],
    run the deferred [Unlock], return. *)
Definition get (i : safeNumber) : outcome (int * safeNumber) :=
  m1 <- Mutex.Lock (m i) ;;
  let r := val i in
  m2 <- Mutex.Unlock m1 ;;
  Next (r, mkSafe (val i) m2).

(** [set] run without interruption: lock, assign, run the deferred
    [Unlock]. *)
Definition set (v : int) (i : safeNumber) : outcome safeNumber :=
  m1 <- Mutex.Lock (m i) ;;
  let i1 := mkSafe v m1 in
  m2 <- Mutex.Unlock (m i1) ;;
  Next (mkSafe (val i1) m2).

(** The same two methods one statement at a time, for a caller that can be
    interleaved with other goroutines.  [defer i.m.Unlock()] only registers
    the call, which runs when the method returns: after the operand of
    [return] has been evaluated in [get], after the assignment in [set]. *)
Inductive get_pc :=
| GetLock                  (* i.m.Lock() *)
| GetEval                  (* return i.val: evaluate the operand *)
| GetUnlock (r : int)      (* the deferred i.m.Unlock() *)
| GetReturned (r : int).

Inductive set_pc :=
| SetLock                  (* i.m.Lock() *)
| SetAssign                (* i.val = val *)
| SetUnlock                (* the deferred i.m.Unlock() *)
| SetReturned.

Definition get_step (pc : get_pc) (i : safeNumber) : outcome (get_pc * safeNumber) :=
  match pc with
  | GetLock => m' <- Mutex.Lock (m i) ;; Next (GetEval, mkSafe (val i) m')
  | GetEval => Next (GetUnlock (val i), i)
  | GetUnlock r => m' <- Mutex.Unlock (m i) ;; Next (GetReturned r, mkSafe (val i) m')
  | GetReturned _ => Ended
  end.

Definition set_step (v : int) (pc : set_pc) (i : safeNumber)
  : outcome (set_pc * safeNumber) :=
  match pc with
  | SetLock => m' <- Mutex.Lock (m i) ;; Next (SetAssign, mkSafe (val i) m')
  | SetAssign => Next (SetUnlock, mkSafe v (m i))
  | SetUnlock => m' <- Mutex.Unlock (m i) ;; Next (SetReturned, mkSafe (val i) m')
  | SetReturned => Ended
  end.

(** [n] statements in a row. *)
Fixpoint steps {A : Type} (f : A -> outcome A) (n : nat) (a : A) : outcome A :=
  match n with
  | O => Next a
  | S k => a' <- f a ;; steps f k a'
  end.

Definition get_steps (n : nat) (i : safeNumber) : outcome (get_pc * safeNumber) :=
  steps (fun p => get_step (fst p) (snd p)) n (GetLock, i).

Definition set_steps (v : int) (n : nat) (i : safeNumber)
  : outcome (set_pc * safeNumber) :=
  steps (fun p => set_step v (fst p) (snd p)) n (SetLock, i).

(** The method is between its [Lock] and its deferred [Unlock]. *)
Definition get_holds (pc : get_pc) : bool :=
  match pc with GetEval | GetUnlock _ => true | _ => false end.

Definition set_holds (pc : set_pc) : bool :=
  match pc with SetAssign | SetUnlock => true | _ => false end.

(** ** useMutex *)

Module UseMutex.
Inductive caller_pc :=
| AtGo                     (* go func() { i.set(5) }() *)
| InGet (pc : get_pc)      (* return i.get(): inside the call of get *)
| Returned (r : int).

Inductive task_pc :=
| NotSpawned
| InSet (pc : set_pc)      (* i.set(5): inside the call of set *)
| Exited.

(** [obj] is the one [safeNumber] that [i] points to; both goroutines
    reach it through the same pointer. *)
Record state := mkState {
  obj : safeNumber;
  caller : caller_pc;
  task : task_pc
}.

(** After [i := &safeNumber{}]. *)
Definition init : state := mkState new_safeNumber AtGo NotSpawned.

Definition step (t : tid) (s : state) : outcome state :=
  match t with
  | Caller =>
      match caller s with
      | AtGo => Next (mkState (obj s) (InGet GetLock) (InSet SetLock))
      | InGet (GetReturned r) => Next (mkState (obj s) (Returned r) (task s))
      | InGet pc =>
          p <- get_step pc (obj s) ;;
          Next (mkState (snd p) (InGet (fst p)) (task s))
      | Returned _ => Ended
      end
  | Task =>
      match task s with
      | NotSpawned => Ended
      | InSet SetReturned => Next (mkState (obj s) (caller s) Exited)
      | InSet pc =>
          p <- set_step 5 pc (obj s) ;;
          Next (mkState (snd p) (caller s) (InSet (fst p)))
      | Exited => Ended
      end
  end.

Definition result (s : state) : option int :=
  match caller s with Returned r => Some r | _ => None end.

Definition caller_holds (s : state) : bool :=
  match caller s with InGet pc => get_holds pc | _ => false end.

Definition task_holds (s : state) : bool :=
  match task s with InSet pc => set_holds pc | _ => false end.
End UseMutex.

(** ** Invariants

    One predicate per pattern, describing the states an arbitrary schedule
    can reach: what the shared data is at each pair of program points. *)

Definition wg_inv (s : BlockingWithWaitgroups.state) : Prop :=
  let n := WaitGroup.counter (BlockingWithWaitgroups.wg s) in
  let pc := BlockingWithWaitgroups.caller s in
  match BlockingWithWaitgroups.task s with
  | BlockingWithWaitgroups.NotSpawned =>
      BlockingWithWaitgroups.i s = 0 /\ BlockingWithWaitgroups.done_calls s = 0%nat /\
      ((pc = BlockingWithWaitgroups.AtAdd /\ n = 0) \/
       (pc = BlockingWithWaitgroups.AtGo /\ n = 1))
  | BlockingWithWaitgroups.AtAssign =>
      BlockingWithWaitgroups.i s = 0 /\ BlockingWithWaitgroups.done_calls s = 0%nat /\
      pc = BlockingWithWaitgroups.AtWait /\ n = 1
  | BlockingWithWaitgroups.AtDone =>
      BlockingWithWaitgroups.i s = 5 /\ BlockingWithWaitgroups.done_calls s = 0%nat /\
      pc = BlockingWithWaitgroups.AtWait /\ n = 1
  | BlockingWithWaitgroups.Exited =>
      BlockingWithWaitgroups.i s = 5 /\ BlockingWithWaitgroups.done_calls s = 1%nat /\
      n = 0 /\
      (pc = BlockingWithWaitgroups.AtWait \/ pc = BlockingWithWaitgroups.AtReturn \/
       pc = BlockingWithWaitgroups.Returned 5)
  end.

Definition ch_inv (s : BlockingWithChannel.state) : Prop :=
  let q := Chan.sendq (BlockingWithChannel.done s) in
  let pc := BlockingWithChannel.caller s in
  Chan.closed (BlockingWithChannel.done s) = false /\
  match BlockingWithChannel.task s with
  | BlockingWithChannel.NotSpawned =>
      BlockingWithChannel.i s = 0 /\ q = None /\ pc = BlockingWithChannel.AtGo
  | BlockingWithChannel.AtAssign =>
      BlockingWithChannel.i s = 0 /\ q = None /\ pc = BlockingWithChannel.AtRecv
  | BlockingWithChannel.AtSend =>
      BlockingWithChannel.i s = 5 /\ q = None /\ pc = BlockingWithChannel.AtRecv
  | BlockingWithChannel.Parked =>
      BlockingWithChannel.i s = 5 /\
      ((q = Some tt /\ pc = BlockingWithChannel.AtRecv) \/
       (q = None /\ pc = BlockingWithChannel.AtReturn) \/
       (q = None /\ pc = BlockingWithChannel.Returned 5))
  | BlockingWithChannel.Exited =>
      BlockingWithChannel.i s = 5 /\ q = None /\
      (pc = BlockingWithChannel.AtReturn \/ pc = BlockingWithChannel.Returned 5)
  end.

Definition fut_inv (s : ReturningWithChannel.state) : Prop :=
  let q := Chan.sendq (ReturningWithChannel.c s) in
  let pc := ReturningWithChannel.caller s in
  let got := ReturningWithChannel.got s in
  Chan.closed (ReturningWithChannel.c s) = false /\
  match ReturningWithChannel.task s with
  | ReturningWithChannel.NotSpawned =>
      q = None /\ got = [] /\ pc = ReturningWithChannel.AtGo
  | ReturningWithChannel.AtSend =>
      q = None /\ got = [] /\
      (pc = ReturningWithChannel.AtReturn \/ pc = ReturningWithChannel.Holding)
  | ReturningWithChannel.Parked =>
      (q = Some 5 /\ got = [] /\ pc = ReturningWithChannel.AtReturn) \/
      (q = Some 5 /\ got = [] /\ pc = ReturningWithChannel.Holding) \/
      (q = None /\ got = [(5, true)] /\ pc = ReturningWithChannel.Holding)
  | ReturningWithChannel.Exited =>
      q = None /\ got = [(5, true)] /\ pc = ReturningWithChannel.Holding
  end.

(** The task of useMutex has run [i.val = 5]. *)
Definition task_wrote (s : UseMutex.state) : bool :=
  match UseMutex.task s with
  | UseMutex.InSet SetUnlock | UseMutex.InSet SetReturned | UseMutex.Exited => true
  | _ => false
  end.

Definition spawned (s : UseMutex.state) : bool :=
  match UseMutex.task s with UseMutex.NotSpawned => false | _ => true end.

(** The mutex is held exactly while one goroutine is between its [Lock] and
    its deferred [Unlock], never by both; the stored value is 0 before the
    task's assignment and 5 after it; a value read by the caller is one of
    the two. *)
Definition mu_inv (s : UseMutex.state) : Prop :=
  let v := val (UseMutex.obj s) in
  Mutex.locked (m (UseMutex.obj s)) = UseMutex.caller_holds s || UseMutex.task_holds s /\
  UseMutex.caller_holds s && UseMutex.task_holds s = false /\
  v = (if task_wrote s then 5 else 0) /\
  match UseMutex.caller s with
  | UseMutex.AtGo => spawned s = false
  | UseMutex.InGet GetLock | UseMutex.InGet GetEval => spawned s = true
  | UseMutex.InGet (GetUnlock r) => spawned s = true /\ r = v
  | UseMutex.InGet (GetReturned r) | UseMutex.Returned r =>
      spawned s = true /\ (r = 0 \/ (r = 5 /\ task_wrote s = true))
  end.

(** ** main *)

(** What [fmt.Println] wrote, one entry per line: a string or an integer. *)
Inductive line := Text (s : String.string) | Num (n : int).

(** A call run under a schedule of its two goroutines: the value it
    returned, or [Blocked] when it has not returned by the end of the
    schedule. *)
Definition call {State : Type} (step : tid -> State -> outcome State)
  (init : State) (result : State -> option int) (sched : list tid) : outcome int :=
  match exec step sched init with
  | None => Panic
  | Some s =>
      match result s with
      | Some r => Next r
      | None => Blocked
      end
  end.

(** [fmt.Println(label)], then the call, then [fmt.Println] of its value,
    then the rest of [main].  The label is on the output before the call
    starts; nothing more is written while the call has not returned. *)
Definition println_call (label : String.string) (r : outcome int)
  (rest : list line * outcome unit) : list line * outcome unit :=
  match r with
  | Next v => (Text label :: Num v :: fst rest, snd rest)
  | Blocked | Ended => ([Text label], Blocked)
  | Panic => ([Text label], Panic)
  end.

(** [main]: the lines written and how far it got ([Next tt]: it returned).
    The four calls share no variable, so a run of the program is given by
    one schedule per call, for the caller and the goroutine that call
    spawns.  The third call is [i := <-returningWithChannel()]: the call
    followed by one receive on the returned channel. *)
Definition main (s1 s2 s3 s4 : list tid) : list line * outcome unit :=
  println_call "Blocking With waitgroups"%string
    (call BlockingWithWaitgroups.step BlockingWithWaitgroups.init
          BlockingWithWaitgroups.result s1)
  (println_call "Blocking With channels"%string
    (call BlockingWithChannel.step BlockingWithChannel.init
          BlockingWithChannel.result s2)
  (println_call "Returning a channels"%string
    (call ReturningWithChannel.step ReturningWithChannel.init
          ReturningWithChannel.result s3)
  (println_call "Using Mutex"%string
    (call UseMutex.step UseMutex.init UseMutex.result s4)
  ([], Next tt)))).

(** The complete output of [main] when useMutex returns [r]. *)
Definition transcript (r : int) : list line :=
  [Text "Blocking With waitgroups"%string; Num 5;
   Text "Blocking With channels"%string; Num 5;
   Text "Returning a channels"%string; Num 5;
   Text "Using Mutex"%string; Num r].

(** ** Sequences of accessor calls *)

(** A goroutine that calls [get] and [set] one after the other on the same
    container; the result lists what the calls of [get] returned. *)
Inductive op := OpGet | OpSet (v : int).

Fixpoint run_ops (ops : list op) (i : safeNumber) : outcome (list int * safeNumber) :=
  match ops with
  | [] => Next ([], i)
  | OpGet :: rest =>
      p <- get i ;;
      q <- run_ops rest (snd p) ;;
      Next (fst p :: fst q, snd q)
  | OpSet v :: rest =>
      i1 <- set v i ;;
      run_ops rest i1
  end.

(** The same operations on a plain integer variable [x], without a lock. *)
Fixpoint plain_ops (ops : list op) (x : int) : list int * int :=
  match ops with
  | [] => ([], x)
  | OpGet :: rest => (x :: fst (plain_ops rest x), snd (plain_ops rest x))
  | OpSet v :: rest => plain_ops rest v
  end.

(** ** Counting statements *)

Section Work.
Variable State : Type.
Variable step : tid -> State -> outcome State.

(** The number of statements a schedule runs: the choices of a goroutine
    that cannot run do not count. *)
Fixpoint work (sched : list tid) (s : State) : nat :=
  match sched with
  | [] => 0
  | t :: rest =>
      match step t s with
      | Next s' => S (work rest s')
      | Blocked | Ended => work rest s
      | Panic => 0
      end
  end.
End Work.

Arguments work {State} step sched s.

(** Statements each pattern still has to run, caller and task together. *)
Definition wg_left (s : BlockingWithWaitgroups.state) : nat :=
  match BlockingWithWaitgroups.caller s with
  | BlockingWithWaitgroups.AtAdd => 4
  | BlockingWithWaitgroups.AtGo => 3
  | BlockingWithWaitgroups.AtWait => 2
  | BlockingWithWaitgroups.AtReturn => 1
  | BlockingWithWaitgroups.Returned _ => 0
  end +
  match BlockingWithWaitgroups.task s with
  | BlockingWithWaitgroups.NotSpawned | BlockingWithWaitgroups.AtAssign => 2
  | BlockingWithWaitgroups.AtDone => 1
  | BlockingWithWaitgroups.Exited => 0
  end.

Definition ch_left (s : BlockingWithChannel.state) : nat :=
  match BlockingWithChannel.caller s with
  | BlockingWithChannel.AtGo => 3
  | BlockingWithChannel.AtRecv => 2
  | BlockingWithChannel.AtReturn => 1
  | BlockingWithChannel.Returned _ => 0
  end +
  match BlockingWithChannel.task s with
  | BlockingWithChannel.NotSpawned | BlockingWithChannel.AtAssign => 3
  | BlockingWithChannel.AtSend => 2
  | BlockingWithChannel.Parked => 1
  | BlockingWithChannel.Exited => 0
  end.

(** For returningWithChannel the caller's part counts its two statements
    and the one receive that can succeed. *)
Definition fut_left (s : ReturningWithChannel.state) : nat :=
  ReturningWithChannel.statements_left s +
  match ReturningWithChannel.got s with [] => 1 | _ => 0 end +
  match ReturningWithChannel.task s with
  | ReturningWithChannel.NotSpawned | ReturningWithChannel.AtSend => 2
  | ReturningWithChannel.Parked => 1
  | ReturningWithChannel.Exited => 0
  end.

Definition mu_left (s : UseMutex.state) : nat :=
  match UseMutex.caller s with
  | UseMutex.AtGo => 5
  | UseMutex.InGet GetLock => 4
  | UseMutex.InGet GetEval => 3
  | UseMutex.InGet (GetUnlock _) => 2
  | UseMutex.InGet (GetReturned _) => 1
  | UseMutex.Returned _ => 0
  end +
  match UseMutex.task s with
  | UseMutex.NotSpawned | UseMutex.InSet SetLock => 4
  | UseMutex.InSet SetAssign => 3
  | UseMutex.InSet SetUnlock => 2
  | UseMutex.InSet SetReturned => 1
  | UseMutex.Exited => 0
  end.

(** ** Which accessor of useMutex got the mutex first *)

(** The task has the mutex, or has been through its [set], and the caller
    has not read yet or has read 5. *)
Definition reads_after_write (s : UseMutex.state) : Prop :=
  UseMutex.task_holds s || task_wrote s = true /\
  match UseMutex.caller s with
  | UseMutex.AtGo => False
  | UseMutex.InGet GetLock | UseMutex.InGet GetEval => True
  | UseMutex.InGet (GetUnlock r) | UseMutex.InGet (GetReturned r)
  | UseMutex.Returned r => r = 5
  end.

(** The caller got the mutex while the task had not started its [set], and
    has read 0 or is about to. *)
Definition reads_before_write (s : UseMutex.state) : Prop :=
  match UseMutex.caller s with
  | UseMutex.AtGo | UseMutex.InGet GetLock => False
  | UseMutex.InGet GetEval => UseMutex.task s = UseMutex.InSet SetLock
  | UseMutex.InGet (GetUnlock r) | UseMutex.InGet (GetReturned r)
  | UseMutex.Returned r => r = 0
  end.

(** * Facts *)

(** ** Schedules and reachable states *)

Section InterleavingFacts.
Variable State : Type.
Variable step : tid -> State -> outcome State.
Variable init : State.

Lemma exec_app (sched1 sched2 : list tid) :
  forall s,
    exec step (sched1 ++ sched2) s =
    match exec step sched1 s with
    | Some s' => exec step sched2 s'
    | None => None
    end.
Proof.
  induction sched1 as [| t rest IH]; intros s; simpl.
  - reflexivity.
  - destruct (step t s); auto.
Qed.

Lemma exec_reachable (sched : list tid) :
  forall s s',
    reachable step init s -> exec step sched s = Some s' -> reachable step init s'.
Proof.
  induction sched as [| t rest IH]; simpl; intros s s' Hs He.
  - injection He as <-. exact Hs.
  - destruct (step t s) as [s1 | | |] eqn:Hst; try discriminate; eauto.
    eapply IH; [| exact He]. eapply reach_step; eauto.
Qed.

Lemma reachable_exec (s : State) :
  reachable step init s -> exists sched, exec step sched init = Some s.
Proof.
  induction 1 as [| t s s' _ [sched IH] Hst].
  - exists []. reflexivity.
  - exists (sched ++ [t]). rewrite exec_app, IH. simpl. now rewrite Hst.
Qed.

Section Invariant.
Variable Inv : State -> Prop.
Hypothesis Inv_init : Inv init.
Hypothesis Inv_step : forall t s s', Inv s -> step t s = Next s' -> Inv s'.

Lemma invariant_reachable (s : State) : reachable step init s -> Inv s.
Proof. induction 1; eauto. Qed.

Hypothesis Inv_safe : forall t s, Inv s -> step t s <> Panic.

(** Under a panic-free invariant every schedule runs to a state of the
    invariant. *)
Lemma invariant_exec (sched : list tid) :
  forall s, Inv s -> exists s', exec step sched s = Some s' /\ Inv s'.
Proof.
  induction sched as [| t rest IH]; simpl; intros s Hs.
  - eauto.
  - destruct (step t s) as [s1 | | |] eqn:Hst; eauto.
    exfalso. eapply Inv_safe; eauto.
Qed.
End Invariant.
End InterleavingFacts.

Arguments exec_app {State} step sched1 sched2 s.
Arguments exec_reachable {State} step init sched s s' _ _.
Arguments reachable_exec {State} step init s _.
Arguments invariant_reachable {State} step init Inv _ _ s _.
Arguments invariant_exec {State} step Inv _ _ sched s _.

(** Splits an invariant into its conjuncts, one goal per disjunct. *)
Ltac break_inv H :=
  repeat match type of H with
         | _ /\ _ => let H1 := fresh H in destruct H as [H1 H]
         | _ \/ _ => destruct H as [H | H]
         end.

(** ** blockingWithWaitgroups *)

Lemma wg_inv_init : wg_inv BlockingWithWaitgroups.init.
Proof. cbv. auto. Qed.

Lemma wg_inv_step t s s' :
  wg_inv s -> BlockingWithWaitgroups.step t s = Next s' -> wg_inv s'.
Proof.
  destruct s as [i [n] pc tk d]; unfold wg_inv; simpl; intros H Hst.
  destruct t, tk; simpl in Hst; break_inv H; subst; simpl in Hst;
    try discriminate; injection Hst as <-; cbv; auto 6.
Qed.

Lemma wg_inv_safe t s : wg_inv s -> BlockingWithWaitgroups.step t s <> Panic.
Proof.
  destruct s as [i [n] pc tk d]; unfold wg_inv; simpl; intros H.
  destruct t, tk; simpl; break_inv H; subst; simpl; try discriminate;
    destruct pc; discriminate.
Qed.

(** From any state of the invariant, five fair rounds complete the call. *)
Lemma wg_inv_completes s :
  wg_inv s ->
  exists s', exec BlockingWithWaitgroups.step (round_robin 5) s = Some s' /\
             BlockingWithWaitgroups.result s' = Some 5 /\ wg_inv s'.
Proof.
  intros H. destruct s as [i [n] pc tk d]; unfold wg_inv in H; simpl in H.
  destruct tk; break_inv H; subst; eexists;
    (split; [vm_compute; reflexivity | split; [reflexivity | cbv; auto 6]]).
Qed.

Lemma wg_inv_result s r :
  wg_inv s -> BlockingWithWaitgroups.result s = Some r -> r = 5.
Proof.
  destruct s as [i [n] pc tk d]; unfold wg_inv, BlockingWithWaitgroups.result; simpl.
  intros H Hr. destruct pc; try discriminate. injection Hr as ->.
  destruct tk; break_inv H; congruence.
Qed.

Lemma wg_exec_inv sched :
  exists s, exec BlockingWithWaitgroups.step sched BlockingWithWaitgroups.init = Some s /\
            wg_inv s.
Proof.
  apply invariant_exec; eauto using wg_inv_init, wg_inv_step, wg_inv_safe.
Qed.

(** ** blockingWithChannel *)

Lemma ch_inv_init : ch_inv BlockingWithChannel.init.
Proof. cbv. auto. Qed.

Lemma ch_inv_step t s s' :
  ch_inv s -> BlockingWithChannel.step t s = Next s' -> ch_inv s'.
Proof.
  destruct s as [i [q cl] pc tk]; unfold ch_inv; simpl; intros [Hcl H] Hst.
  subst cl.
  destruct t, tk; simpl in Hst; break_inv H; subst; cbn in Hst;
    try discriminate; injection Hst as <-; cbv; auto 6.
Qed.

Lemma ch_inv_safe t s : ch_inv s -> BlockingWithChannel.step t s <> Panic.
Proof.
  destruct s as [i [q cl] pc tk]; unfold ch_inv; simpl; intros [Hcl H].
  subst cl.
  destruct t, tk; simpl; break_inv H; subst; cbn; discriminate.
Qed.

(** From any state of the invariant, four fair rounds complete the call. *)
Lemma ch_inv_completes s :
  ch_inv s ->
  exists s', exec BlockingWithChannel.step (round_robin 4) s = Some s' /\
             BlockingWithChannel.result s' = Some 5.
Proof.
  intros H. destruct s as [i [q cl] pc tk]; unfold ch_inv in H; simpl in H.
  destruct H as [Hcl H]; subst cl.
  destruct tk; break_inv H; subst; eexists;
    (split; [vm_compute; reflexivity | reflexivity]).
Qed.

Lemma ch_exec_inv sched :
  exists s, exec BlockingWithChannel.step sched BlockingWithChannel.init = Some s /\
            ch_inv s.
Proof.
  apply invariant_exec; eauto using ch_inv_init, ch_inv_step, ch_inv_safe.
Qed.

Lemma ch_inv_result s r :
  ch_inv s -> BlockingWithChannel.result s = Some r -> r = 5.
Proof.
  destruct s as [i [q cl] pc tk]; unfold ch_inv, BlockingWithChannel.result; simpl.
  intros [_ H] Hr. destruct pc; try discriminate. injection Hr as ->.
  destruct tk; break_inv H; congruence.
Qed.

(** ** returningWithChannel *)

Lemma fut_inv_init : fut_inv ReturningWithChannel.init.
Proof. cbv. auto. Qed.

Lemma fut_inv_step t s s' :
  fut_inv s -> ReturningWithChannel.step t s = Next s' -> fut_inv s'.
Proof.
  destruct s as [[q cl] pc tk g]; unfold fut_inv; simpl; intros [Hcl H] Hst.
  subst cl.
  destruct t, tk; simpl in Hst; break_inv H; subst; cbn in Hst;
    try discriminate; injection Hst as <-; cbv; auto 6.
Qed.

Lemma fut_inv_safe t s : fut_inv s -> ReturningWithChannel.step t s <> Panic.
Proof.
  destruct s as [[q cl] pc tk g]; unfold fut_inv; simpl; intros [Hcl H].
  subst cl.
  destruct t, tk; simpl; break_inv H; subst; cbn; discriminate.
Qed.

(** From any state of the invariant, three fair rounds deliver the value
    and leave the receiver parked in its next receive. *)
Lemma fut_inv_completes s :
  fut_inv s ->
  exists s', exec ReturningWithChannel.step (round_robin 3) s = Some s' /\
             ReturningWithChannel.got s' = [(5, true)] /\
             ReturningWithChannel.task s' = ReturningWithChannel.Exited.
Proof.
  intros H. destruct s as [[q cl] pc tk g]; unfold fut_inv in H; simpl in H.
  destruct H as [Hcl H]; subst cl.
  destruct tk; break_inv H; subst; eexists;
    (split; [vm_compute; reflexivity | split; reflexivity]).
Qed.

Lemma fut_exec_inv sched :
  exists s, exec ReturningWithChannel.step sched ReturningWithChannel.init = Some s /\
            fut_inv s.
Proof.
  apply invariant_exec; eauto using fut_inv_init, fut_inv_step, fut_inv_safe.
Qed.

Lemma fut_inv_got s :
  fut_inv s ->
  ReturningWithChannel.got s = [] \/ ReturningWithChannel.got s = [(5, true)].
Proof.
  destruct s as [[q cl] pc tk g]; unfold fut_inv; simpl; intros [_ H].
  destruct tk; break_inv H; auto.
Qed.

Lemma fut_inv_result s r :
  fut_inv s -> ReturningWithChannel.result s = Some r -> r = 5.
Proof.
  intros H Hr. unfold ReturningWithChannel.result in Hr.
  destruct (fut_inv_got s H) as [Hg | Hg]; rewrite Hg in Hr;
    [discriminate | congruence].
Qed.

(** Once the value has been delivered, nothing changes the state any more
    except the exit of the task, and the receiver stays blocked. *)
Lemma fut_inv_delivered s :
  fut_inv s -> ReturningWithChannel.got s = [(5, true)] ->
  ReturningWithChannel.caller s = ReturningWithChannel.Holding /\
  ReturningWithChannel.c s = Chan.make /\
  ReturningWithChannel.step Caller s = Blocked.
Proof.
  destruct s as [[q cl] pc tk g]; unfold fut_inv; simpl; intros [Hcl H] Hg.
  subst cl g.
  destruct tk; break_inv H; subst; try discriminate; auto.
Qed.

Lemma fut_got_stable sched :
  forall s s',
    fut_inv s -> ReturningWithChannel.got s = [(5, true)] ->
    exec ReturningWithChannel.step sched s = Some s' ->
    fut_inv s' /\ ReturningWithChannel.got s' = [(5, true)].
Proof.
  induction sched as [| t rest IH]; simpl; intros s s' Hinv Hg He.
  - injection He as <-. auto.
  - destruct (ReturningWithChannel.step t s) as [s1 | | |] eqn:Hst;
      try discriminate; eauto.
    apply (IH s1 s'); [eapply fut_inv_step; eauto | | exact He].
    destruct t.
    + destruct (fut_inv_delivered s Hinv Hg) as [_ [_ Hb]]. congruence.
    + destruct s as [[q cl] pc tk g]; simpl in *.
      destruct tk; simpl in Hst; try discriminate.
      * unfold Chan.send_park in Hst; simpl in Hst.
        destruct cl; [discriminate |].
        destruct q; simpl in Hst; [discriminate |].
        injection Hst as <-. exact Hg.
      * unfold Chan.send_resume in Hst; simpl in Hst.
        destruct q; simpl in Hst; [discriminate |].
        injection Hst as <-. exact Hg.
Qed.

(** The caller's statements never wait for the task: the call has returned
    as soon as the caller was scheduled twice. *)
Lemma fut_call_returns sched :
  forall s s',
    exec ReturningWithChannel.step sched s = Some s' ->
    (ReturningWithChannel.statements_left s <= count_occ tid_eq_dec sched Caller)%nat ->
    ReturningWithChannel.returned s' = true.
Proof.
  unfold ReturningWithChannel.returned, ReturningWithChannel.statements_left.
  induction sched as [| t rest IH]; simpl; intros s s' He Hn.
  - injection He as <-. destruct (ReturningWithChannel.caller s); [lia | lia | reflexivity].
  - destruct t.
    + destruct (tid_eq_dec Caller Caller) as [_ | Hne]; [| congruence].
      destruct s as [ch pc tk g]; simpl in *. destruct pc; simpl in He.
      * apply (IH _ _ He). simpl. lia.
      * apply (IH _ _ He). simpl. lia.
      * destruct (Chan.recv 0 ch) as [r | | |]; simpl in He; try discriminate;
          apply (IH _ _ He); simpl; lia.
    + destruct (tid_eq_dec Caller Task) as [Heq | _]; [discriminate |].
      destruct s as [ch pc tk g]; simpl in *. destruct tk; simpl in He.
      * apply (IH _ _ He). exact Hn.
      * destruct (Chan.send_park 5 ch); simpl in He; try discriminate;
          apply (IH _ _ He); exact Hn.
      * destruct (Chan.send_resume ch); simpl in He; try discriminate;
          apply (IH _ _ He); exact Hn.
      * apply (IH _ _ He). exact Hn.
Qed.

(** ** safeNumber *)

Lemma get_free (i : safeNumber) :
  Mutex.locked (m i) = false -> get i = Next (val i, i).
Proof. destruct i as [v [l]]; simpl; intros ->; reflexivity. Qed.

(** A call that starts with the mutex free holds it exactly between its
    [Lock] and its deferred [Unlock]; [get] never changes the value. *)
Lemma get_steps_lock (n : nat) (i i' : safeNumber) (pc : get_pc) :
  Mutex.locked (m i) = false ->
  get_steps n i = Next (pc, i') ->
  Mutex.locked (m i') = get_holds pc /\ val i' = val i.
Proof.
  destruct i as [v [l]]; simpl; intros -> H.
  do 4 (destruct n as [| n]; [injection H as <- <-; auto |]).
  discriminate.
Qed.

Lemma set_steps_lock (v : int) (n : nat) (i i' : safeNumber) (pc : set_pc) :
  Mutex.locked (m i) = false ->
  set_steps v n i = Next (pc, i') ->
  Mutex.locked (m i') = set_holds pc.
Proof.
  destruct i as [v0 [l]]; simpl; intros -> H.
  do 4 (destruct n as [| n]; [injection H as <- <-; auto |]).
  discriminate.
Qed.

Lemma get_step_val (pc pc' : get_pc) (i i' : safeNumber) :
  get_step pc i = Next (pc', i') -> val i' = val i.
Proof.
  destruct i as [v [l]], pc, l; simpl; intros H; try discriminate;
    injection H as <- <-; reflexivity.
Qed.

(** ** useMutex *)

Ltac mu_unfold :=
  unfold mu_inv, UseMutex.caller_holds, UseMutex.task_holds, task_wrote, spawned.

Lemma mu_inv_init : mu_inv UseMutex.init.
Proof. cbv. auto. Qed.

Lemma mu_inv_step t s s' :
  mu_inv s -> UseMutex.step t s = Next s' -> mu_inv s'.
Proof.
  destruct s as [[v [l]] pc tk]; mu_unfold; simpl; intros (Hl & Hx & Hv & Hc) Hst.
  destruct t; destruct pc as [| [| | r | r] | r]; destruct tk as [| [| | |] |];
    simpl in *; subst; break_inv Hc; subst; cbn in Hst;
    try discriminate; injection Hst as <-; cbn; auto 8.
Qed.

Lemma mu_inv_safe t s : mu_inv s -> UseMutex.step t s <> Panic.
Proof.
  destruct s as [[v [l]] pc tk]; mu_unfold; simpl; intros (Hl & Hx & Hv & Hc).
  destruct t; destruct pc as [| [| | r | r] | r]; destruct tk as [| [| | |] |];
    simpl in *; subst; cbn; discriminate.
Qed.

Lemma mu_inv_result s r :
  mu_inv s -> UseMutex.result s = Some r -> r = 0 \/ r = 5.
Proof.
  destruct s as [[v [l]] pc tk]; mu_unfold; unfold UseMutex.result; simpl.
  intros (_ & _ & _ & Hc) Hr. destruct pc; try discriminate.
  injection Hr as ->. tauto.
Qed.

(** From any state of the invariant, seven fair rounds complete the call. *)
Lemma mu_inv_completes s :
  mu_inv s ->
  exists s' r, exec UseMutex.step (round_robin 7) s = Some s' /\
               UseMutex.result s' = Some r /\ (r = 0 \/ r = 5).
Proof.
  intros H. destruct s as [[v [l]] pc tk]; revert H; mu_unfold.
  intros (Hl & Hx & Hv & Hc).
  destruct pc as [| [| | r | r] | r]; destruct tk as [| [| | |] |];
    simpl in Hl, Hx, Hv, Hc; subst; break_inv Hc; subst; try discriminate;
    do 2 eexists;
    (split; [vm_compute; reflexivity | split; [reflexivity | auto]]).
Qed.

Lemma mu_inv_result_5 s :
  mu_inv s -> UseMutex.result s = Some 5 -> task_wrote s = true.
Proof.
  destruct s as [[v [l]] pc tk]; mu_unfold; unfold UseMutex.result; simpl.
  intros (_ & _ & _ & Hc) Hr. destruct pc; try discriminate.
  injection Hr as ->. destruct Hc as [_ [H0 | [_ Hw]]]; [discriminate | exact Hw].
Qed.

Lemma mu_exec_inv sched :
  exists s, exec UseMutex.step sched UseMutex.init = Some s /\ mu_inv s.
Proof.
  apply invariant_exec; eauto using mu_inv_init, mu_inv_step, mu_inv_safe.
Qed.

(** * The claims *)

(** C1: whatever the scheduler does, a call of blockingWithWaitgroups never
    panics; if it has returned, it returned 5 and not the zero value 0; the
    caller gets past [wg.Wait()] only after the task has written 5 and
    called [wg.Done()]; and letting both goroutines run on completes the
    call with 5. *)
Theorem blockingWithWaitgroups_returns_5 :
  forall sched : list tid,
  exists s,
    exec BlockingWithWaitgroups.step sched BlockingWithWaitgroups.init = Some s /\
    (forall r, BlockingWithWaitgroups.result s = Some r -> r = 5) /\
    BlockingWithWaitgroups.result s <> Some 0 /\
    (BlockingWithWaitgroups.past_wait s = true ->
     BlockingWithWaitgroups.task s = BlockingWithWaitgroups.Exited /\
     BlockingWithWaitgroups.i s = 5) /\
    (BlockingWithWaitgroups.caller s = BlockingWithWaitgroups.AtWait ->
     BlockingWithWaitgroups.task s <> BlockingWithWaitgroups.Exited ->
     BlockingWithWaitgroups.step Caller s = Blocked) /\
    exists s',
      exec BlockingWithWaitgroups.step (sched ++ round_robin 5)
           BlockingWithWaitgroups.init = Some s' /\
      BlockingWithWaitgroups.result s' = Some 5.
Proof.
  intros sched.
  destruct (wg_exec_inv sched) as [s [He Hinv]].
  exists s. split; [exact He |].
  assert (Hres := fun r => wg_inv_result s r Hinv).
  split; [exact Hres |].
  split; [intros H0; apply Hres in H0; discriminate |].
  split; [| split].
  - destruct s as [i [n] pc tk d]; unfold wg_inv in Hinv; simpl in *.
    unfold BlockingWithWaitgroups.past_wait; simpl.
    destruct tk; break_inv Hinv; subst; auto; discriminate.
  - destruct s as [i [n] pc tk d]; unfold wg_inv in Hinv; simpl in *.
    intros -> Hne.
    destruct tk; break_inv Hinv; subst; try discriminate; try reflexivity;
      congruence.
  - rewrite exec_app, He.
    destruct (wg_inv_completes s Hinv) as [s' [He' [Hr' _]]]. eauto.
Qed.

(** C8: in blockingWithWaitgroups the counter is 1 when the task is spawned
    and stays 1 until the task's single [wg.Done()] brings it to 0; it is
    never negative (no schedule panics); the caller never decrements it; and
    [wg.Wait()] blocks while the counter is not zero, so the caller is past
    it only with the counter at zero and [Done] called once. *)
Theorem waitgroup_counter_discipline :
  forall sched : list tid,
  exists s,
    exec BlockingWithWaitgroups.step sched BlockingWithWaitgroups.init = Some s /\
    0 <= WaitGroup.counter (BlockingWithWaitgroups.wg s) <= 1 /\
    (BlockingWithWaitgroups.caller s = BlockingWithWaitgroups.AtGo ->
     WaitGroup.counter (BlockingWithWaitgroups.wg s) = 1) /\
    (BlockingWithWaitgroups.caller s <> BlockingWithWaitgroups.AtAdd ->
     WaitGroup.counter (BlockingWithWaitgroups.wg s) =
     1 - Z.of_nat (BlockingWithWaitgroups.done_calls s)) /\
    (BlockingWithWaitgroups.done_calls s <= 1)%nat /\
    (forall s1, BlockingWithWaitgroups.step Caller s = Next s1 ->
                BlockingWithWaitgroups.done_calls s1 =
                BlockingWithWaitgroups.done_calls s /\
                WaitGroup.counter (BlockingWithWaitgroups.wg s) <=
                WaitGroup.counter (BlockingWithWaitgroups.wg s1)) /\
    (forall t, BlockingWithWaitgroups.step t s <> Panic) /\
    (BlockingWithWaitgroups.caller s = BlockingWithWaitgroups.AtWait ->
     WaitGroup.counter (BlockingWithWaitgroups.wg s) <> 0 ->
     BlockingWithWaitgroups.step Caller s = Blocked) /\
    (BlockingWithWaitgroups.past_wait s = true ->
     WaitGroup.counter (BlockingWithWaitgroups.wg s) = 0 /\
     BlockingWithWaitgroups.done_calls s = 1%nat) /\
    exists s',
      exec BlockingWithWaitgroups.step (sched ++ round_robin 5)
           BlockingWithWaitgroups.init = Some s' /\
      WaitGroup.counter (BlockingWithWaitgroups.wg s') = 0 /\
      BlockingWithWaitgroups.done_calls s' = 1%nat.
Proof.
  intros sched.
  destruct (wg_exec_inv sched) as [s [He Hinv]].
  exists s. split; [exact He |].
  repeat match goal with |- _ /\ _ => split end.
  - destruct s as [i [n] pc tk d]; unfold wg_inv in Hinv; simpl in *.
    destruct tk; break_inv Hinv; subst; lia.
  - destruct s as [i [n] pc tk d]; unfold wg_inv in Hinv; simpl in *.
    destruct tk; break_inv Hinv; subst; lia.
  - destruct s as [i [n] pc tk d]; unfold wg_inv in Hinv; simpl in *.
    intros ->. destruct tk; break_inv Hinv; subst; auto; discriminate.
  - destruct s as [i [n] pc tk d]; unfold wg_inv in Hinv; simpl in *.
    intros Hne. destruct tk; break_inv Hinv; subst; auto; congruence.
  - destruct s as [i [n] pc tk d]; unfold wg_inv in Hinv; simpl in *.
    destruct tk; break_inv Hinv; subst; lia.
  - intros s1 Hst. destruct s as [i [n] pc tk d]; simpl in *.
    destruct pc; simpl in Hst.
    + unfold WaitGroup.Add in Hst; simpl in Hst.
      destruct (n + 1 <? 0); simpl in Hst; [discriminate |].
      injection Hst as <-. simpl. lia.
    + injection Hst as <-. simpl. lia.
    + unfold WaitGroup.Wait in Hst; simpl in Hst.
      destruct (n =? 0); simpl in Hst; [| discriminate].
      injection Hst as <-. simpl. lia.
    + injection Hst as <-. simpl. lia.
    + discriminate.
  - intros t. apply wg_inv_safe, Hinv.
  - intros Hpc Hn. destruct s as [i [n] pc tk d]; simpl in *. subst pc.
    simpl. unfold WaitGroup.Wait; simpl.
    destruct (Z.eqb_spec n 0); [contradiction | reflexivity].
  - destruct s as [i [n] pc tk d]; unfold wg_inv in Hinv; simpl in *.
    unfold BlockingWithWaitgroups.past_wait; simpl.
    destruct tk; break_inv Hinv; subst; auto; discriminate.
  - destruct (wg_inv_completes s Hinv) as [s' [He' [Hr' Hinv']]].
    exists s'. rewrite exec_app, He. split; [exact He' |]. clear He He' Hinv.
    destruct s' as [i' [n'] pc' tk' d']; unfold wg_inv in Hinv'; simpl in *.
    unfold BlockingWithWaitgroups.result in Hr'; simpl in Hr'.
    destruct pc'; try discriminate.
    destruct tk'; break_inv Hinv'; subst; auto; discriminate.
Qed.

(** C2: a call of useMutex never panics and, whatever the scheduler does,
    returns 0 or 5 and nothing else: the two goroutines are never both
    between [Lock] and [Unlock], the mutex is held exactly while one of
    them is, and the stored value is 0 or 5 whenever the caller reads it.
    Every run can be continued to a return, and both values do occur: 0
    when the caller runs first, 5 when the goroutines alternate. *)
Theorem useMutex_returns_0_or_5 :
  (forall sched : list tid,
   exists s,
     exec UseMutex.step sched UseMutex.init = Some s /\
     (forall r, UseMutex.result s = Some r -> r = 0 \/ r = 5) /\
     UseMutex.caller_holds s && UseMutex.task_holds s = false /\
     Mutex.locked (m (UseMutex.obj s)) =
       UseMutex.caller_holds s || UseMutex.task_holds s /\
     (val (UseMutex.obj s) = 0 \/ val (UseMutex.obj s) = 5) /\
     exists s' r,
       exec UseMutex.step (sched ++ round_robin 7) UseMutex.init = Some s' /\
       UseMutex.result s' = Some r /\ (r = 0 \/ r = 5)) /\
  may_return UseMutex.step UseMutex.init UseMutex.result 0 /\
  may_return UseMutex.step UseMutex.init UseMutex.result 5.
Proof.
  split; [| split].
  - intros sched. destruct (mu_exec_inv sched) as [s [He Hinv]].
    exists s. split; [exact He |].
    split; [intros r; apply mu_inv_result, Hinv |].
    assert (Hinv' := Hinv). destruct Hinv' as (Hl & Hx & Hv & _).
    split; [exact Hx |]. split; [exact Hl |].
    split; [rewrite Hv; destruct (task_wrote s); auto |].
    destruct (mu_inv_completes s Hinv) as [s' [r [He' Hr]]].
    exists s', r. rewrite exec_app, He. auto.
  - exists [Caller; Caller; Caller; Caller; Caller]. eexists.
    split; [vm_compute; reflexivity | reflexivity].
  - exists (round_robin 7). eexists.
    split; [vm_compute; reflexivity | reflexivity].
Qed.



(** C4: the two statements of returningWithChannel run without waiting for
    anything, so the call has returned once the caller was scheduled twice,
    even if the task never ran; no schedule panics; once the call has
    returned, one step of the task makes 5 available on the channel unless
    it was delivered already; the receives on the handle deliver 5 and
    deliver at most once, and three fair rounds deliver it. *)
Theorem returningWithChannel_future :
  (forall s, ReturningWithChannel.returned s = false ->
             exists s', ReturningWithChannel.step Caller s = Next s') /\
  (exists s,
     exec ReturningWithChannel.step [Caller; Caller] ReturningWithChannel.init = Some s /\
     ReturningWithChannel.returned s = true /\
     ReturningWithChannel.task s = ReturningWithChannel.AtSend) /\
  (forall sched : list tid,
   exists s,
     exec ReturningWithChannel.step sched ReturningWithChannel.init = Some s /\
     ((2 <= count_occ tid_eq_dec sched Caller)%nat ->
      ReturningWithChannel.returned s = true) /\
     (ReturningWithChannel.got s = [] \/ ReturningWithChannel.got s = [(5, true)]) /\
     (ReturningWithChannel.deliveries s <= 1)%nat /\
     (ReturningWithChannel.returned s = true ->
      exists s1,
        exec ReturningWithChannel.step (sched ++ [Task]) ReturningWithChannel.init = Some s1 /\
        (Chan.sendq (ReturningWithChannel.c s1) = Some 5 \/
         ReturningWithChannel.got s1 = [(5, true)])) /\
     exists s',
       exec ReturningWithChannel.step (sched ++ round_robin 3)
            ReturningWithChannel.init = Some s' /\
       ReturningWithChannel.got s' = [(5, true)] /\
       ReturningWithChannel.deliveries s' = 1%nat).
Proof.
  split; [| split].
  - intros [ch pc tk g]; unfold ReturningWithChannel.returned; simpl.
    destruct pc; simpl; intros H; try discriminate; eauto.
  - eexists. split; [vm_compute; reflexivity |]. split; reflexivity.
  - intros sched. destruct (fut_exec_inv sched) as [s [He Hinv]].
    exists s. split; [exact He |].
    split; [intros Hn; apply (fut_call_returns sched _ _ He); exact Hn |].
    assert (Hg := fut_inv_got s Hinv).
    split; [exact Hg |].
    split; [unfold ReturningWithChannel.deliveries;
            destruct Hg as [-> | ->]; simpl; lia |].
    split.
    + intros Hret. rewrite exec_app, He. clear He Hg.
      destruct s as [[q cl] pc tk g]; unfold fut_inv in Hinv; simpl in Hinv.
      unfold ReturningWithChannel.returned in Hret; simpl in Hret.
      destruct Hinv as [Hcl H]; subst cl.
      destruct tk; break_inv H; subst; try discriminate;
        eexists; (split; [vm_compute; reflexivity | simpl; auto]).
    + destruct (fut_inv_completes s Hinv) as [s' [He' [Hg' _]]].
      exists s'. rewrite exec_app, He. split; [exact He' |].
      split; [exact Hg' |].
      unfold ReturningWithChannel.deliveries. now rewrite Hg'.
Qed.

(** C5: blockingWithChannel and blockingWithWaitgroups have the same
    results: a value can be returned by one exactly when it can be returned
    by the other, that value is 5, neither panics, and every run of either
    can be continued to a return. *)
Theorem blockingWithChannel_equivalent :
  (forall r,
     may_return BlockingWithChannel.step BlockingWithChannel.init
                BlockingWithChannel.result r <->
     may_return BlockingWithWaitgroups.step BlockingWithWaitgroups.init
                BlockingWithWaitgroups.result r) /\
  (forall r,
     may_return BlockingWithChannel.step BlockingWithChannel.init
                BlockingWithChannel.result r <-> r = 5) /\
  (forall sched1 sched2 : list tid,
   exists s1 s2,
     exec BlockingWithChannel.step (sched1 ++ round_robin 4)
          BlockingWithChannel.init = Some s1 /\
     exec BlockingWithWaitgroups.step (sched2 ++ round_robin 5)
          BlockingWithWaitgroups.init = Some s2 /\
     BlockingWithChannel.result s1 = Some 5 /\
     BlockingWithWaitgroups.result s2 = Some 5).
Proof.
  assert (Hch : forall r,
             may_return BlockingWithChannel.step BlockingWithChannel.init
                        BlockingWithChannel.result r <-> r = 5).
  { intros r. split.
    - intros (sched & s & He & Hr).
      destruct (ch_exec_inv sched) as [s0 [He0 Hinv]].
      rewrite He in He0. injection He0 as <-. eapply ch_inv_result; eauto.
    - intros ->. exists (round_robin 4). eexists.
      split; [vm_compute; reflexivity | reflexivity]. }
  assert (Hwg : forall r,
             may_return BlockingWithWaitgroups.step BlockingWithWaitgroups.init
                        BlockingWithWaitgroups.result r <-> r = 5).
  { intros r. split.
    - intros (sched & s & He & Hr).
      destruct (wg_exec_inv sched) as [s0 [He0 Hinv]].
      rewrite He in He0. injection He0 as <-. eapply wg_inv_result; eauto.
    - intros ->. exists (round_robin 5). eexists.
      split; [vm_compute; reflexivity | reflexivity]. }
  split; [| split].
  - intros r. rewrite Hch, Hwg. tauto.
  - exact Hch.
  - intros sched1 sched2.
    destruct (ch_exec_inv sched1) as [a [Ha Hia]].
    destruct (wg_exec_inv sched2) as [b [Hb Hib]].
    destruct (ch_inv_completes a Hia) as [s1 [He1 Hr1]].
    destruct (wg_inv_completes b Hib) as [s2 [He2 [Hr2 _]]].
    exists s1, s2. rewrite !exec_app, Ha, Hb. auto.
Qed.

(** C6: on a container whose mutex is free, [set(v)] returns and stores
    [v], and the [get()] that follows returns [v]; this holds for every
    integer [v] and every previous content.  (On a container whose mutex is
    held, [set] parks in [Lock] and no [get] follows.) *)
Theorem set_then_get (i : safeNumber) (v : int) :
  (Mutex.locked (m i) = false ->
   exists i1,
     set v i = Next i1 /\ val i1 = v /\ get i1 = Next (v, i1) /\
     (i1 <- set v i ;; get i1) = Next (v, mkSafe v Mutex.zero)) /\
  (Mutex.locked (m i) = true -> set v i = Blocked).
Proof.
  destruct i as [v0 [l]]; simpl. split; intros ->.
  - eexists. repeat split.
  - reflexivity.
Qed.

Lemma set_then_get_witness :
  exists i1,
    set 7 new_safeNumber = Next i1 /\ val i1 = 7 /\ get i1 = Next (7, i1) /\
    (i1 <- set 7 new_safeNumber ;; get i1) = Next (7, mkSafe 7 Mutex.zero).
Proof.
  apply (proj1 (set_then_get new_safeNumber 7)). reflexivity.
Defined.

(** C7: [get] and [set] start by acquiring the mutex: with the mutex held by
    someone else their first statement parks.  Started with the mutex free,
    each holds it after one and after two statements, has released it when
    it returns after the third, and at every point of the call the mutex is
    held exactly when the call is between its [Lock] and its deferred
    [Unlock]; each has one exit, reached only through that [Unlock].  In
    useMutex, under every schedule, the mutex is held exactly while one of
    the two goroutines is inside such a section. *)
Theorem accessors_lock_discipline (i : safeNumber) (v : int) :
  (Mutex.locked (m i) = true ->
   get_step GetLock i = Blocked /\ set_step v SetLock i = Blocked) /\
  (Mutex.locked (m i) = false ->
   get_steps 1 i = Next (GetEval, mkSafe (val i) (Mutex.mk true)) /\
   get_steps 2 i = Next (GetUnlock (val i), mkSafe (val i) (Mutex.mk true)) /\
   get_steps 3 i = Next (GetReturned (val i), mkSafe (val i) (Mutex.mk false)) /\
   get i = Next (val i, mkSafe (val i) (Mutex.mk false)) /\
   set_steps v 1 i = Next (SetAssign, mkSafe (val i) (Mutex.mk true)) /\
   set_steps v 2 i = Next (SetUnlock, mkSafe v (Mutex.mk true)) /\
   set_steps v 3 i = Next (SetReturned, mkSafe v (Mutex.mk false)) /\
   set v i = Next (mkSafe v (Mutex.mk false)) /\
   (forall n pc i', get_steps n i = Next (pc, i') ->
                    Mutex.locked (m i') = get_holds pc) /\
   (forall n pc i', set_steps v n i = Next (pc, i') ->
                    Mutex.locked (m i') = set_holds pc)) /\
  (forall sched : list tid,
   exists s,
     exec UseMutex.step sched UseMutex.init = Some s /\
     Mutex.locked (m (UseMutex.obj s)) =
       UseMutex.caller_holds s || UseMutex.task_holds s).
Proof.
  split; [| split].
  - destruct i as [v0 [l]]; simpl. intros ->. split; reflexivity.
  - intros Hfree. repeat split;
      try (destruct i as [v0 [l]]; simpl in *; subst l; reflexivity).
    + intros n pc i' H. exact (proj1 (get_steps_lock n i i' pc Hfree H)).
    + intros n pc i' H. exact (set_steps_lock v n i i' pc Hfree H).
  - intros sched. destruct (mu_exec_inv sched) as [s [He Hinv]].
    exists s. split; [exact He |]. apply Hinv.
Qed.

Lemma accessors_lock_discipline_witness :
  get_steps 1 new_safeNumber = Next (GetEval, mkSafe 0 (Mutex.mk true)) /\
  get_steps 3 new_safeNumber = Next (GetReturned 0, mkSafe 0 (Mutex.mk false)) /\
  set_steps 5 2 new_safeNumber = Next (SetUnlock, mkSafe 5 (Mutex.mk true)) /\
  set 5 new_safeNumber = Next (mkSafe 5 (Mutex.mk false)).
Proof.
  destruct (proj1 (proj2 (accessors_lock_discipline new_safeNumber 5)) eq_refl)
    as (H1 & _ & H3 & _ & _ & H6 & _ & H8 & _).
  exact (conj H1 (conj H3 (conj H6 H8))).
Defined.

(** C9: once a receive on the handle returned by returningWithChannel has
    delivered the value, the channel is empty and open, the next receive
    blocks, and this stays so under every further schedule: the list of
    received values never grows beyond that one delivery. *)
Theorem second_receive_blocks (s : ReturningWithChannel.state) :
  reachable ReturningWithChannel.step ReturningWithChannel.init s ->
  ReturningWithChannel.got s = [(5, true)] ->
  ReturningWithChannel.step Caller s = Blocked /\
  ReturningWithChannel.c s = Chan.make /\
  forall sched' : list tid,
  exists s',
    exec ReturningWithChannel.step sched' s = Some s' /\
    ReturningWithChannel.got s' = [(5, true)] /\
    ReturningWithChannel.deliveries s' = 1%nat /\
    ReturningWithChannel.c s' = Chan.make /\
    ReturningWithChannel.step Caller s' = Blocked.
Proof.
  intros Hreach Hg.
  assert (Hinv : fut_inv s).
  { revert Hreach. apply invariant_reachable; [exact fut_inv_init |].
    exact fut_inv_step. }
  destruct (fut_inv_delivered s Hinv Hg) as (_ & Hc & Hb).
  split; [exact Hb |]. split; [exact Hc |].
  intros sched'.
  destruct (invariant_exec ReturningWithChannel.step fut_inv
              fut_inv_step fut_inv_safe sched' s Hinv) as [s' [He' _]].
  destruct (fut_got_stable sched' s s' Hinv Hg He') as [Hinv' Hg'].
  destruct (fut_inv_delivered s' Hinv' Hg') as (_ & Hc' & Hb').
  exists s'. unfold ReturningWithChannel.deliveries. rewrite Hg'. auto.
Qed.

Lemma second_receive_blocks_witness :
  ReturningWithChannel.step Caller
    (ReturningWithChannel.mkState Chan.make ReturningWithChannel.Holding
       ReturningWithChannel.Exited [(5, true)]) = Blocked.
Proof.
  apply (second_receive_blocks
           (ReturningWithChannel.mkState Chan.make ReturningWithChannel.Holding
              ReturningWithChannel.Exited [(5, true)])).
  - apply (exec_reachable _ _ (round_robin 3) ReturningWithChannel.init).
    + apply reach_init.
    + reflexivity.
  - reflexivity.
Defined.

(** C10: no statement of [get] changes the stored value; on a container
    whose mutex is free [get] returns the stored value and leaves the
    container as it was, so two calls in a row return the same value; and
    on a fresh [safeNumber] it returns 0. *)
Theorem get_is_a_pure_read (i : safeNumber) :
  (forall pc pc' i', get_step pc i = Next (pc', i') -> val i' = val i) /\
  (Mutex.locked (m i) = false ->
   get i = Next (val i, i) /\
   (p1 <- get i ;; p2 <- get (snd p1) ;; Next (fst p1, fst p2, snd p2)) =
     Next (val i, val i, i)) /\
  get new_safeNumber = Next (0, new_safeNumber).
Proof.
  split; [| split].
  - intros pc pc' i'. apply get_step_val.
  - intros Hfree. rewrite (get_free i Hfree). simpl.
    rewrite (get_free i Hfree). auto.
  - reflexivity.
Qed.

Lemma get_is_a_pure_read_witness :
  get (mkSafe 5 Mutex.zero) = Next (5, mkSafe 5 Mutex.zero) /\
  (p1 <- get (mkSafe 5 Mutex.zero) ;; p2 <- get (snd p1) ;;
   Next (fst p1, fst p2, snd p2)) = Next (5, 5, mkSafe 5 Mutex.zero).
Proof.
  exact (proj1 (proj2 (get_is_a_pure_read (mkSafe 5 Mutex.zero))) eq_refl).
Defined.

(** * Further properties *)

(** ** Statements run and statements left *)

Section WorkFacts.
Variable State : Type.
Variable step : tid -> State -> outcome State.
Variable Inv : State -> Prop.
Variable remaining : State -> nat.
Hypothesis Inv_step : forall t s s', Inv s -> step t s = Next s' -> Inv s'.
Hypothesis remaining_step :
  forall t s s', Inv s -> step t s = Next s' -> remaining s = S (remaining s').

(** Every statement run takes one off what remains. *)
Lemma work_accounting (sched : list tid) :
  forall s s',
    Inv s -> exec step sched s = Some s' ->
    (work step sched s + remaining s' = remaining s)%nat.
Proof.
  induction sched as [| t rest IH]; simpl; intros s s' Hs He.
  - injection He as <-. reflexivity.
  - destruct (step t s) as [s1 | | |] eqn:Hst; try discriminate; eauto.
    rewrite (remaining_step t s s1 Hs Hst). simpl. f_equal. eauto.
Qed.
End WorkFacts.

Arguments work_accounting {State} step Inv remaining _ _ sched s s' _ _.

(** Makes the state and its invariant concrete, one goal per reachable
    shape. *)
Ltac wg_cases s H :=
  destruct s as [?i [?n] ?pc ?tk ?d]; unfold wg_inv in H; simpl in H;
  match goal with tk : BlockingWithWaitgroups.task_pc |- _ => destruct tk end;
  break_inv H; subst.

Ltac ch_cases s H :=
  destruct s as [?i [?q ?cl] ?pc ?tk]; unfold ch_inv in H; simpl in H;
  destruct H as [?Hcl H]; subst;
  match goal with tk : BlockingWithChannel.task_pc |- _ => destruct tk end;
  break_inv H; subst.

Ltac fut_cases s H :=
  destruct s as [[?q ?cl] ?pc ?tk ?g]; unfold fut_inv in H; simpl in H;
  destruct H as [?Hcl H]; subst;
  match goal with tk : ReturningWithChannel.task_pc |- _ => destruct tk end;
  break_inv H; subst.

Ltac mu_cases s H :=
  destruct s as [[?v [?l]] ?pc ?tk]; revert H; mu_unfold;
  intros (Hmu1 & Hmu2 & Hmu3 & H);
  match goal with
    pc : UseMutex.caller_pc, tk : UseMutex.task_pc |- _ =>
      destruct pc as [| [| | ?r | ?r] | ?r]; destruct tk as [| [| | |] |]
  end;
  simpl in Hmu1, Hmu2, Hmu3, H; subst; break_inv H; subst; try discriminate.

(** Picks the goroutine that can run in a concrete state. *)
Ltac some_step :=
  first [ exists Caller; eexists; reflexivity | exists Task; eexists; reflexivity ].

Lemma wg_left_step t s s' :
  wg_inv s -> BlockingWithWaitgroups.step t s = Next s' -> wg_left s = S (wg_left s').
Proof.
  intros H Hst. wg_cases s H; destruct t; cbn in Hst; try discriminate;
    injection Hst as <-; reflexivity.
Qed.

Lemma ch_left_step t s s' :
  ch_inv s -> BlockingWithChannel.step t s = Next s' -> ch_left s = S (ch_left s').
Proof.
  intros H Hst. ch_cases s H; destruct t; cbn in Hst; try discriminate;
    injection Hst as <-; reflexivity.
Qed.

Lemma fut_left_step t s s' :
  fut_inv s -> ReturningWithChannel.step t s = Next s' -> fut_left s = S (fut_left s').
Proof.
  intros H Hst. fut_cases s H; destruct t; cbn in Hst; try discriminate;
    injection Hst as <-; reflexivity.
Qed.

Lemma mu_left_step t s s' :
  mu_inv s -> UseMutex.step t s = Next s' -> mu_left s = S (mu_left s').
Proof.
  intros H Hst. mu_cases s H; destruct t; cbn in Hst; try discriminate;
    injection Hst as <-; reflexivity.
Qed.

(** Fair rounds leave nothing to run. *)
Lemma wg_inv_quiet s :
  wg_inv s ->
  exists s', exec BlockingWithWaitgroups.step (round_robin 5) s = Some s' /\
             wg_left s' = 0%nat.
Proof.
  intros H. wg_cases s H; eexists; (split; [vm_compute; reflexivity | reflexivity]).
Qed.

Lemma ch_inv_quiet s :
  ch_inv s ->
  exists s', exec BlockingWithChannel.step (round_robin 4) s = Some s' /\
             ch_left s' = 0%nat.
Proof.
  intros H. ch_cases s H; eexists; (split; [vm_compute; reflexivity | reflexivity]).
Qed.

Lemma fut_inv_quiet s :
  fut_inv s ->
  exists s', exec ReturningWithChannel.step (round_robin 3) s = Some s' /\
             fut_left s' = 0%nat.
Proof.
  intros H. fut_cases s H; eexists; (split; [vm_compute; reflexivity | reflexivity]).
Qed.

Lemma mu_inv_quiet s :
  mu_inv s ->
  exists s' r, exec UseMutex.step (round_robin 7) s = Some s' /\
               s' = UseMutex.mkState (mkSafe 5 Mutex.zero) (UseMutex.Returned r)
                                     UseMutex.Exited /\
               (r = 0 \/ r = 5).
Proof.
  intros H. mu_cases s H; do 2 eexists;
    (split; [vm_compute; reflexivity | split; [reflexivity | auto]]).
Qed.

(** While something is left to run, some goroutine can run. *)
Lemma wg_inv_progress s :
  wg_inv s -> wg_left s <> 0%nat ->
  exists t s', BlockingWithWaitgroups.step t s = Next s'.
Proof.
  intros H Hn. wg_cases s H; try some_step. exfalso. apply Hn. reflexivity.
Qed.

Lemma ch_inv_progress s :
  ch_inv s -> ch_left s <> 0%nat ->
  exists t s', BlockingWithChannel.step t s = Next s'.
Proof.
  intros H Hn. ch_cases s H; try some_step. exfalso. apply Hn. reflexivity.
Qed.

Lemma fut_inv_progress s :
  fut_inv s -> fut_left s <> 0%nat ->
  exists t s', ReturningWithChannel.step t s = Next s'.
Proof.
  intros H Hn. fut_cases s H; try some_step. exfalso. apply Hn. reflexivity.
Qed.

Lemma mu_inv_progress s :
  mu_inv s -> mu_left s <> 0%nat ->
  exists t s', UseMutex.step t s = Next s'.
Proof.
  intros H Hn. mu_cases s H; try some_step; exfalso; apply Hn; reflexivity.
Qed.

(** ** What a call can have produced by the end of a schedule *)

Lemma call_wg sched :
  call BlockingWithWaitgroups.step BlockingWithWaitgroups.init
       BlockingWithWaitgroups.result sched = Next 5 \/
  call BlockingWithWaitgroups.step BlockingWithWaitgroups.init
       BlockingWithWaitgroups.result sched = Blocked.
Proof.
  unfold call. destruct (wg_exec_inv sched) as [s [-> Hinv]].
  destruct (BlockingWithWaitgroups.result s) as [r |] eqn:Hr; [left | right; reflexivity].
  now rewrite (wg_inv_result s r Hinv Hr).
Qed.

Lemma call_ch sched :
  call BlockingWithChannel.step BlockingWithChannel.init
       BlockingWithChannel.result sched = Next 5 \/
  call BlockingWithChannel.step BlockingWithChannel.init
       BlockingWithChannel.result sched = Blocked.
Proof.
  unfold call. destruct (ch_exec_inv sched) as [s [-> Hinv]].
  destruct (BlockingWithChannel.result s) as [r |] eqn:Hr; [left | right; reflexivity].
  now rewrite (ch_inv_result s r Hinv Hr).
Qed.

Lemma call_fut sched :
  call ReturningWithChannel.step ReturningWithChannel.init
       ReturningWithChannel.result sched = Next 5 \/
  call ReturningWithChannel.step ReturningWithChannel.init
       ReturningWithChannel.result sched = Blocked.
Proof.
  unfold call. destruct (fut_exec_inv sched) as [s [-> Hinv]].
  destruct (ReturningWithChannel.result s) as [r |] eqn:Hr; [left | right; reflexivity].
  now rewrite (fut_inv_result s r Hinv Hr).
Qed.

Lemma call_mu sched :
  call UseMutex.step UseMutex.init UseMutex.result sched = Next 0 \/
  call UseMutex.step UseMutex.init UseMutex.result sched = Next 5 \/
  call UseMutex.step UseMutex.init UseMutex.result sched = Blocked.
Proof.
  unfold call. destruct (mu_exec_inv sched) as [s [-> Hinv]].
  destruct (UseMutex.result s) as [r |] eqn:Hr; [| auto].
  destruct (mu_inv_result s r Hinv Hr) as [-> | ->]; auto.
Qed.

Lemma call_wg_fair sched :
  call BlockingWithWaitgroups.step BlockingWithWaitgroups.init
       BlockingWithWaitgroups.result (sched ++ round_robin 5) = Next 5.
Proof.
  unfold call. rewrite exec_app. destruct (wg_exec_inv sched) as [s [-> Hinv]].
  destruct (wg_inv_completes s Hinv) as [s' [-> [-> _]]]. reflexivity.
Qed.

Lemma call_ch_fair sched :
  call BlockingWithChannel.step BlockingWithChannel.init
       BlockingWithChannel.result (sched ++ round_robin 4) = Next 5.
Proof.
  unfold call. rewrite exec_app. destruct (ch_exec_inv sched) as [s [-> Hinv]].
  destruct (ch_inv_completes s Hinv) as [s' [-> ->]]. reflexivity.
Qed.

Lemma call_fut_fair sched :
  call ReturningWithChannel.step ReturningWithChannel.init
       ReturningWithChannel.result (sched ++ round_robin 3) = Next 5.
Proof.
  unfold call. rewrite exec_app. destruct (fut_exec_inv sched) as [s [-> Hinv]].
  destruct (fut_inv_completes s Hinv) as [s' [-> [Hg _]]].
  unfold ReturningWithChannel.result. now rewrite Hg.
Qed.

Lemma call_mu_fair sched :
  exists r,
    (r = 0 \/ r = 5) /\
    call UseMutex.step UseMutex.init UseMutex.result (sched ++ round_robin 7) = Next r.
Proof.
  unfold call. rewrite exec_app. destruct (mu_exec_inv sched) as [s [-> Hinv]].
  destruct (mu_inv_completes s Hinv) as [s' [r [-> [-> Hr]]]]. eauto.
Qed.

Lemma set_free (v : int) (i : safeNumber) :
  Mutex.locked (m i) = false -> set v i = Next (mkSafe v (m i)).
Proof. destruct i as [v0 [l]]; simpl; intros ->; reflexivity. Qed.

(** ** main *)

(** X1: whatever the schedulers do, [main] never panics and what it has
    written is a beginning of the eight-line transcript whose numbers are
    5, 5, 5 and then 0 or 5; it has written all eight lines exactly when it
    has returned. *)
Theorem main_output_is_a_transcript_prefix (s1 s2 s3 s4 : list tid) :
  snd (main s1 s2 s3 s4) <> Panic /\
  exists r rest,
    (r = 0 \/ r = 5) /\
    fst (main s1 s2 s3 s4) ++ rest = transcript r /\
    (snd (main s1 s2 s3 s4) = Next tt <-> rest = []).
Proof.
  unfold main.
  destruct (call_wg s1) as [-> | ->];
    [destruct (call_ch s2) as [-> | ->];
       [destruct (call_fut s3) as [-> | ->];
          [destruct (call_mu s4) as [-> | [-> | ->]] | ] | ] | ];
    simpl; (split; [discriminate |]);
    first [ exists 0; eexists; split; [left; reflexivity |];
            split; [reflexivity |]; split; [reflexivity | reflexivity]
          | exists 5; eexists; split; [right; reflexivity |];
            split; [reflexivity |]; split; [reflexivity | reflexivity]
          | exists 5; eexists; split; [right; reflexivity |];
            split; [reflexivity |]; split; discriminate ].
Qed.

(** X2: when each call is given enough fair rounds after any beginning,
    [main] returns after writing the whole transcript, whose last line is 0
    or 5; and both last lines occur: 5 when the goroutines of useMutex
    alternate, 0 when its caller runs first. *)
Theorem main_completes_under_fair_schedules :
  (forall s1 s2 s3 s4 : list tid,
   exists r,
     (r = 0 \/ r = 5) /\
     main (s1 ++ round_robin 5) (s2 ++ round_robin 4) (s3 ++ round_robin 3)
          (s4 ++ round_robin 7) = (transcript r, Next tt)) /\
  main (round_robin 5) (round_robin 4) (round_robin 3) (round_robin 7) =
    (transcript 5, Next tt) /\
  main (round_robin 5) (round_robin 4) (round_robin 3)
       [Caller; Caller; Caller; Caller; Caller] = (transcript 0, Next tt).
Proof.
  split; [| split].
  - intros s1 s2 s3 s4. unfold main.
    rewrite call_wg_fair, call_ch_fair, call_fut_fair.
    destruct (call_mu_fair s4) as [r [Hr ->]].
    exists r. split; [exact Hr | reflexivity].
  - vm_compute. reflexivity.
  - vm_compute. reflexivity.
Qed.

(** ** Sequences of accessor calls *)

(** X3: started with the mutex free, any sequence of [get] and [set] calls
    made one after the other returns, leaves the mutex free, and behaves as
    the same reads and writes of a plain integer variable: every [get]
    returns the value of the latest [set] before it, or the initial value. *)
Theorem accessors_behave_as_a_variable (ops : list op) (i : safeNumber) :
  Mutex.locked (m i) = false ->
  run_ops ops i =
  Next (fst (plain_ops ops (val i)), mkSafe (snd (plain_ops ops (val i))) Mutex.zero).
Proof.
  revert i. induction ops as [| o rest IH]; intros i Hfree.
  - destruct i as [v [l]]; simpl in *. subst l. reflexivity.
  - destruct o as [| v]; simpl.
    + rewrite (get_free i Hfree). simpl. rewrite (IH i Hfree). reflexivity.
    + rewrite (set_free v i Hfree). simpl.
      rewrite (IH (mkSafe v (m i)) Hfree). reflexivity.
Qed.

Lemma accessors_behave_as_a_variable_witness :
  run_ops [OpGet; OpSet 5; OpGet; OpSet 7; OpSet 9; OpGet] new_safeNumber =
  Next ([0; 5; 9], mkSafe 9 Mutex.zero).
Proof.
  exact (accessors_behave_as_a_variable
           [OpGet; OpSet 5; OpGet; OpSet 7; OpSet 9; OpGet] new_safeNumber eq_refl).
Defined.

(** ** blockingWithChannel *)

(** X4: in blockingWithChannel, under every schedule, the channel is never
    closed and nothing panics; the caller's receive blocks as long as the
    task has not offered its token; and once the caller is past the receive
    the task has assigned 5, the channel is empty again, and the task is
    finishing its send or has exited. *)
Theorem blockingWithChannel_handoff (sched : list tid) :
  exists s,
    exec BlockingWithChannel.step sched BlockingWithChannel.init = Some s /\
    Chan.closed (BlockingWithChannel.done s) = false /\
    (BlockingWithChannel.caller s = BlockingWithChannel.AtRecv ->
     (Chan.sendq (BlockingWithChannel.done s) = None /\
      BlockingWithChannel.step Caller s = Blocked /\
      BlockingWithChannel.task s <> BlockingWithChannel.Parked) \/
     (Chan.sendq (BlockingWithChannel.done s) = Some tt /\
      BlockingWithChannel.task s = BlockingWithChannel.Parked /\
      BlockingWithChannel.i s = 5)) /\
    (BlockingWithChannel.caller s = BlockingWithChannel.AtReturn \/
     BlockingWithChannel.result s <> None ->
     BlockingWithChannel.i s = 5 /\
     BlockingWithChannel.done s = Chan.make /\
     (BlockingWithChannel.task s = BlockingWithChannel.Parked \/
      BlockingWithChannel.task s = BlockingWithChannel.Exited)).
Proof.
  destruct (ch_exec_inv sched) as [s [He Hinv]].
  exists s. split; [exact He |]. clear He.
  unfold BlockingWithChannel.result.
  ch_cases s Hinv; simpl; (split; [reflexivity |]); split;
    try (intros Hpc; discriminate Hpc);
    try (intros [Hpc | Hpc]; [discriminate Hpc | now contradiction Hpc]);
    try (intros _; left; repeat split; discriminate);
    try (intros _; right; repeat split; reflexivity);
    try (intros _; repeat split; auto).
Qed.

(** ** returningWithChannel *)

Lemma fut_parked_stays (n : nat) :
  exec ReturningWithChannel.step (repeat Task n)
       (ReturningWithChannel.mkState (Chan.mk (Some 5) false)
          ReturningWithChannel.Holding ReturningWithChannel.Parked []) =
  Some (ReturningWithChannel.mkState (Chan.mk (Some 5) false)
          ReturningWithChannel.Holding ReturningWithChannel.Parked []).
Proof. induction n as [| n IH]; [reflexivity | exact IH]. Qed.

(** X5: the goroutine spawned by returningWithChannel finishes only after
    its value was received.  If the caller holds the returned channel and has
    not received from it, then however often the task is scheduled it stays
    parked in its send, offering 5, and never exits. *)
Theorem returningWithChannel_sender_waits_for_receiver
  (s : ReturningWithChannel.state) :
  reachable ReturningWithChannel.step ReturningWithChannel.init s ->
  (ReturningWithChannel.task s = ReturningWithChannel.Exited ->
   ReturningWithChannel.got s = [(5, true)]) /\
  (ReturningWithChannel.returned s = true ->
   ReturningWithChannel.got s = [] ->
   forall n : nat,
   exists s',
     exec ReturningWithChannel.step (repeat Task (S n)) s = Some s' /\
     ReturningWithChannel.task s' = ReturningWithChannel.Parked /\
     Chan.sendq (ReturningWithChannel.c s') = Some 5 /\
     ReturningWithChannel.got s' = [] /\
     ReturningWithChannel.step Task s' = Blocked).
Proof.
  intros Hreach.
  assert (Hinv : fut_inv s).
  { revert Hreach. apply invariant_reachable; [exact fut_inv_init |].
    exact fut_inv_step. }
  clear Hreach. unfold ReturningWithChannel.returned.
  fut_cases s Hinv; simpl; (split; [intros Hx; first [discriminate Hx | reflexivity] |]);
    intros Hret Hg; try discriminate Hret; try discriminate Hg; intros n;
    eexists; (split; [apply (fut_parked_stays n) | repeat split]).
Qed.

Lemma returningWithChannel_sender_waits_for_receiver_witness :
  exists s',
    exec ReturningWithChannel.step (repeat Task 4)
         (ReturningWithChannel.mkState Chan.make ReturningWithChannel.Holding
            ReturningWithChannel.AtSend []) = Some s' /\
    ReturningWithChannel.task s' = ReturningWithChannel.Parked /\
    Chan.sendq (ReturningWithChannel.c s') = Some 5 /\
    ReturningWithChannel.got s' = [] /\
    ReturningWithChannel.step Task s' = Blocked.
Proof.
  refine (proj2 (returningWithChannel_sender_waits_for_receiver
                   (ReturningWithChannel.mkState Chan.make ReturningWithChannel.Holding
                      ReturningWithChannel.AtSend []) _) eq_refl eq_refl 3%nat).
  apply (exec_reachable _ _ [Caller; Caller] ReturningWithChannel.init).
  - apply reach_init.
  - reflexivity.
Defined.

(** ** useMutex *)

(** X6: whichever value useMutex returns, the write of its task is not
    lost and the mutex is not left held: seven fair rounds after any
    beginning, the call has returned 0 or 5, the task has exited, the
    container holds 5 and its mutex is free. *)
Theorem useMutex_ends_with_5_stored (sched : list tid) :
  exists r,
    (r = 0 \/ r = 5) /\
    exec UseMutex.step (sched ++ round_robin 7) UseMutex.init =
    Some (UseMutex.mkState (mkSafe 5 Mutex.zero) (UseMutex.Returned r) UseMutex.Exited).
Proof.
  destruct (mu_exec_inv sched) as [s [He Hinv]].
  destruct (mu_inv_quiet s Hinv) as [s' [r [He' [-> Hr]]]].
  exists r. split; [exact Hr |]. now rewrite exec_app, He.
Qed.

(** ** All four patterns *)


(** X8: none of the four patterns can deadlock: after any schedule, either
    some goroutine can run its next statement, or nothing is left to run:
    the call has returned (for returningWithChannel, its value has been
    received) and the spawned goroutine has exited. *)
Theorem patterns_never_deadlock (sched : list tid) :
  (exists s,
     exec BlockingWithWaitgroups.step sched BlockingWithWaitgroups.init = Some s /\
     ((exists t s', BlockingWithWaitgroups.step t s = Next s') \/
      (BlockingWithWaitgroups.result s = Some 5 /\
       BlockingWithWaitgroups.task s = BlockingWithWaitgroups.Exited))) /\
  (exists s,
     exec BlockingWithChannel.step sched BlockingWithChannel.init = Some s /\
     ((exists t s', BlockingWithChannel.step t s = Next s') \/
      (BlockingWithChannel.result s = Some 5 /\
       BlockingWithChannel.task s = BlockingWithChannel.Exited))) /\
  (exists s,
     exec ReturningWithChannel.step sched ReturningWithChannel.init = Some s /\
     ((exists t s', ReturningWithChannel.step t s = Next s') \/
      (ReturningWithChannel.result s = Some 5 /\
       ReturningWithChannel.task s = ReturningWithChannel.Exited))) /\
  (exists s,
     exec UseMutex.step sched UseMutex.init = Some s /\
     ((exists t s', UseMutex.step t s = Next s') \/
      ((UseMutex.result s = Some 0 \/ UseMutex.result s = Some 5) /\
       UseMutex.task s = UseMutex.Exited))).
Proof.
  split; [| split; [| split]].
  - destruct (wg_exec_inv sched) as [s [He Hinv]]. exists s. split; [exact He |].
    clear He. destruct (Nat.eq_dec (wg_left s) 0) as [Hz | Hnz].
    + right. wg_cases s Hinv; try discriminate Hz. split; reflexivity.
    + left. apply wg_inv_progress; assumption.
  - destruct (ch_exec_inv sched) as [s [He Hinv]]. exists s. split; [exact He |].
    clear He. destruct (Nat.eq_dec (ch_left s) 0) as [Hz | Hnz].
    + right. ch_cases s Hinv; try discriminate Hz. split; reflexivity.
    + left. apply ch_inv_progress; assumption.
  - destruct (fut_exec_inv sched) as [s [He Hinv]]. exists s. split; [exact He |].
    clear He. destruct (Nat.eq_dec (fut_left s) 0) as [Hz | Hnz].
    + right. fut_cases s Hinv; try discriminate Hz. split; reflexivity.
    + left. apply fut_inv_progress; assumption.
  - destruct (mu_exec_inv sched) as [s [He Hinv]]. exists s. split; [exact He |].
    clear He. destruct (Nat.eq_dec (mu_left s) 0) as [Hz | Hnz].
    + right. mu_cases s Hinv; try discriminate Hz; split; auto.
    + left. apply mu_inv_progress; assumption.
Qed.

(** ** useMutex: the order of the two [Lock] calls decides the result *)

Section ExecInvariant.
Variable State : Type.
Variable step : tid -> State -> outcome State.
Variable Inv : State -> Prop.
Hypothesis Inv_step : forall t s s', Inv s -> step t s = Next s' -> Inv s'.

Lemma exec_invariant (sched : list tid) :
  forall s s', Inv s -> exec step sched s = Some s' -> Inv s'.
Proof.
  induction sched as [| t rest IH]; simpl; intros s s' Hs He.
  - injection He as <-. exact Hs.
  - destruct (step t s) as [s1 | | |] eqn:Hst; try discriminate; eauto.
Qed.
End ExecInvariant.

Arguments exec_invariant {State} step Inv _ sched s s' _ _.

Lemma reads_after_write_step t s s' :
  mu_inv s /\ reads_after_write s -> UseMutex.step t s = Next s' ->
  mu_inv s' /\ reads_after_write s'.
Proof.
  intros [H Hr] Hst. split; [exact (mu_inv_step t s s' H Hst) |].
  revert Hr. unfold reads_after_write. mu_unfold.
  mu_cases s H; simpl; intros [Hw Hr]; try discriminate Hw; try contradiction;
    subst; destruct t; cbn in Hst; try discriminate;
    injection Hst as <-; simpl; auto.
Qed.

Lemma reads_before_write_step t s s' :
  mu_inv s /\ reads_before_write s -> UseMutex.step t s = Next s' ->
  mu_inv s' /\ reads_before_write s'.
Proof.
  intros [H Hr] Hst. split; [exact (mu_inv_step t s s' H Hst) |].
  revert Hr. unfold reads_before_write.
  mu_cases s H; simpl; intros Hr; try discriminate Hr; try contradiction;
    subst; destruct t; cbn in Hst; try discriminate;
    injection Hst as <-; simpl; auto.
Qed.

(** X9: in useMutex the value returned is settled by who gets the mutex
    first.  From a state in which the caller is still waiting at its [Lock]
    while the task holds the mutex or is through its [set], every run that
    returns returns 5; from a state in which the caller holds the mutex
    while the task is still at its [Lock], every run that returns returns
    0. *)
Theorem useMutex_lock_order_decides
  (s s' : UseMutex.state) (sched : list tid) :
  reachable UseMutex.step UseMutex.init s ->
  exec UseMutex.step sched s = Some s' ->
  (UseMutex.caller s = UseMutex.InGet GetLock ->
   UseMutex.task_holds s || task_wrote s = true ->
   UseMutex.result s' = None \/ UseMutex.result s' = Some 5) /\
  (UseMutex.caller_holds s = true ->
   UseMutex.task s = UseMutex.InSet SetLock ->
   UseMutex.result s' = None \/ UseMutex.result s' = Some 0).
Proof.
  intros Hreach He.
  assert (Hinv : mu_inv s).
  { revert Hreach. apply invariant_reachable; [exact mu_inv_init |].
    exact mu_inv_step. }
  clear Hreach. split.
  - intros Hpc Hw.
    assert (H0 : mu_inv s /\ reads_after_write s).
    { split; [exact Hinv |]. unfold reads_after_write. rewrite Hpc. auto. }
    destruct (exec_invariant _ _ reads_after_write_step sched s s' H0 He)
      as [_ [_ Hr]].
    unfold UseMutex.result.
    destruct (UseMutex.caller s') as [| [| | r | r] | r]; auto.
    right. now rewrite Hr.
  - intros Hh Htk.
    assert (H0 : mu_inv s /\ reads_before_write s).
    { split; [exact Hinv |]. clear He. revert Hh Htk. unfold reads_before_write.
      mu_cases s Hinv; simpl; intros Hh Htk; try discriminate; auto. }
    destruct (exec_invariant _ _ reads_before_write_step sched s s' H0 He)
      as [_ Hr].
    unfold UseMutex.result. unfold reads_before_write in Hr.
    destruct (UseMutex.caller s') as [| [| | r | r] | r]; auto.
    right. now rewrite Hr.
Qed.

Lemma useMutex_lock_order_decides_witness :
  UseMutex.result
    (UseMutex.mkState (mkSafe 5 Mutex.zero) (UseMutex.Returned 5) UseMutex.Exited) = None \/
  UseMutex.result
    (UseMutex.mkState (mkSafe 5 Mutex.zero) (UseMutex.Returned 5) UseMutex.Exited) = Some 5.
Proof.
  refine (proj1 (useMutex_lock_order_decides
                   (UseMutex.mkState (mkSafe 0 (Mutex.mk true))
                      (UseMutex.InGet GetLock) (UseMutex.InSet SetAssign))
                   _ (round_robin 6) _ _) eq_refl eq_refl).
  - apply (exec_reachable _ _ [Caller; Task] UseMutex.init).
    + apply reach_init.
    + reflexivity.
  - vm_compute. reflexivity.
Defined.
